(** * create-icon.py: the apple-touch-icon generator

    A shallow embedding of [src/create-icon.py] and of the part of the
    Pillow API the script calls.  The script is thirty lines of top-level
    code: it allocates a 180x180 RGB canvas, resolves a font (a TrueType
    file, or the built-in font when loading raises), measures the letter,
    computes a draw position, draws the letter in black, saves the canvas
    as a PNG and prints one line.

    Pillow is not part of the repository.  Its operations are modelled
    here at the level the script observes them: images are pixel buffers,
    a font measures and rasterises a string relative to its anchor, the
    PNG codec is kept at the level of the image header and the pixel
    payload, and the process environment is an explicit record threaded
    through a state-and-exception monad. *)

From Stdlib Require Import Ascii.
From stdpp Require Import base numbers list strings gmap.

Open Scope string_scope.
Open Scope Z_scope.

(** ** Values shared by the Pillow modules *)

(** An 8-bit RGB triple. *)
Definition color : Type := Z * Z * Z.

(** [(left, top, right, bottom)], right and bottom exclusive. *)
Definition box : Type := Z * Z * Z * Z.

Inductive mode := RGB | RGBA | L.

Record image := {
  im_mode : mode;
  im_size : Z * Z;
  im_data : list color          (* row-major, [width * height] entries *)
}.

(** What a font object answers for a string: the box of its ink and the
    coverage (0..255) of every pixel, both relative to the anchor point
    (Pillow's default anchor: left, ascender line).  Every font answers
    both, the built-in one included, as in the Pillow releases that measure
    bitmap fonts too. *)
Record Font := {
  getbbox : string → box;
  getmask : string → Z → Z → Z
}.

(** A scalable face, as parsed from a font file: a font per pixel size. *)
Record Face := {
  face_bbox : Z → string → box;
  face_mask : Z → string → Z → Z → Z
}.

(** The PNG stream, at chunk level: the IHDR fields and the decoded IDAT. *)
Record Png := {
  ihdr_width : Z;
  ihdr_height : Z;
  ihdr_bit_depth : Z;
  ihdr_color_type : Z;          (* 2: truecolour, 6: truecolour with alpha *)
  idat : list color
}.

Inductive content :=
| PngFile (p : Png)
| FontFile (f : Face)
| Raw (bytes : list Z).

Inductive exn :=
| OSError (msg : string)
| ImportError (msg : string)
| ValueError (msg : string)
| MemoryError.

(** ** The process environment *)

Record World := {
  files : gmap string content;            (* the filesystem *)
  faults : gmap string exn;               (* paths that cannot be opened for writing *)
  freetype : bool;                        (* is the FreeType binding installed *)
  builtin_font : option Z → Font;         (* what ImageFont.load_default(size) yields *)
  stdout : list string
}.

Definition set_files (fs : gmap string content) (w : World) : World :=
  {| files := fs; faults := faults w; freetype := freetype w;
     builtin_font := builtin_font w; stdout := stdout w |}.

Definition set_stdout (out : list string) (w : World) : World :=
  {| files := files w; faults := faults w; freetype := freetype w;
     builtin_font := builtin_font w; stdout := out |}.

(** ** Statements: state and exceptions

    A raised exception keeps the effects that happened before it. *)
Definition M (A : Type) : Type := World → (exn + A) * World.

Definition ret {A} (a : A) : M A := λ w, (inr a, w).
Definition raise {A} (e : exn) : M A := λ w, (inl e, w).
Definition bind {A B} (m : M A) (k : A → M B) : M B :=
  λ w, match m w with
       | (inr a, w') => k a w'
       | (inl e, w') => (inl e, w')
       end.

(** [try: m except: h], with a bare [except] clause: every exception is
    handed to [h]. *)
Definition try_except {A} (m : M A) (h : exn → M A) : M A :=
  λ w, match m w with
       | (inr a, w') => (inr a, w')
       | (inl e, w') => h e w'
       end.

Definition lift {A} (r : exn + A) : M A := λ w, (r, w).

#[global] Instance M_ret : MRet M := @ret.
#[global] Instance M_bind : MBind M := λ A B k m, bind m k.

(** ** ImageColor *)
Module ImageColor.

Definition hex_digit (c : Ascii.ascii) : option Z :=
  let n := Z.of_N (Ascii.N_of_ascii c) in
  if (48 <=? n) && (n <=? 57) then Some (n - 48)
  else if (97 <=? n) && (n <=? 102) then Some (n - 87)
  else if (65 <=? n) && (n <=? 70) then Some (n - 55)   (* the string is lower-cased first *)
  else None.

Definition hex_pair (a b : Ascii.ascii) : option Z :=
  match hex_digit a, hex_digit b with
  | Some h, Some l => Some (16 * h + l)
  | _, _ => None
  end.

(** The rows of Pillow's colour-name table and the one hexadecimal
    form ([#rrggbb]) that the script relies on. *)
Definition colormap (name : string) : option color :=
  if String.eqb name "black" then Some (0, 0, 0)
  else if String.eqb name "white" then Some (255, 255, 255)
  else if String.eqb name "cyan" then Some (0, 255, 255)
  else None.

Definition getrgb (s : string) : option color :=
  match colormap s with
  | Some c => Some c
  | None =>
      match s with
      | String "#"%char (String r1 (String r2 (String g1 (String g2
          (String b1 (String b2 EmptyString)))))) =>
          match hex_pair r1 r2, hex_pair g1 g2, hex_pair b1 b2 with
          | Some r, Some g, Some b => Some (r, g, b)
          | _, _, _ => None
          end
      | _ => None
      end
  end.

End ImageColor.

(** ** Image *)
Module Image.

Definition getbands (m : mode) : list string :=
  match m with
  | RGB => ["R"; "G"; "B"]
  | RGBA => ["R"; "G"; "B"; "A"]
  | L => ["L"]
  end.

(** [Image.new(mode, size, color)] *)
Definition new (m : mode) (size : Z * Z) (c : string) : exn + image :=
  let '(w, h) := size in
  if (w <? 0) || (h <? 0) then inl (ValueError "Width and height must be >= 0")
  else match ImageColor.getrgb c with
       | None => inl (ValueError "unknown color specifier")
       | Some rgb =>
           inr {| im_mode := m; im_size := size;
                  im_data := replicate (Z.to_nat (w * h)) rgb |}
       end.

(** [img.getpixel((x, y))]; [None] stands for Pillow's IndexError. *)
Definition getpixel (img : image) (xy : Z * Z) : option color :=
  let '(w, h) := im_size img in
  let '(x, y) := xy in
  if (0 <=? x) && (x <? w) && (0 <=? y) && (y <? h)
  then im_data img !! Z.to_nat (y * w + x)
  else None.

(** [os.path.splitext(path)[1]]: the suffix from the last dot of the last
    path component, leading dots of that component not counting. *)
Fixpoint after_last (sep : ascii) (s : string) : option string :=
  match s with
  | EmptyString => None
  | String c r =>
      match after_last sep r with
      | Some t => Some t
      | None => if Ascii.eqb c sep then Some r else None
      end
  end.

Fixpoint lstrip_dots (s : string) : string :=
  match s with
  | String "."%char r => lstrip_dots r
  | _ => s
  end.

Definition splitext_ext (path : string) : string :=
  let base := default path (after_last "/" path) in
  match after_last "." (lstrip_dots base) with
  | Some e => String "." e
  | None => ""
  end.

Definition lower_ascii (c : ascii) : ascii :=
  let n := N_of_ascii c in
  if ((65 <=? n) && (n <=? 90))%N then ascii_of_N (n + 32) else c.

Fixpoint lower (s : string) : string :=
  match s with
  | EmptyString => EmptyString
  | String c r => String (lower_ascii c) (lower r)
  end.

Inductive format := PNG.

(** Pillow's extension registry, cut down to the row the script uses. *)
Definition EXTENSION (ext : string) : option format :=
  if String.eqb ext ".png" then Some PNG else None.

Definition png_color_type (m : mode) : Z :=
  match m with RGB => 2 | RGBA => 6 | L => 0 end.

Definition png_encode (img : image) : Png :=
  {| ihdr_width := fst (im_size img); ihdr_height := snd (im_size img);
     ihdr_bit_depth := 8; ihdr_color_type := png_color_type (im_mode img);
     idat := im_data img |}.

Definition png_decode (p : Png) : exn + image :=
  let mk m := inr {| im_mode := m; im_size := (ihdr_width p, ihdr_height p);
                     im_data := idat p |} in
  if ihdr_color_type p =? 2 then mk RGB
  else if ihdr_color_type p =? 6 then mk RGBA
  else if ihdr_color_type p =? 0 then mk L
  else inl (OSError "cannot identify image file").

(** [img.save(path)]: the format comes from the extension, the file is
    opened for writing (created or truncated) and receives the stream. *)
Definition save (img : image) (path : string) : M unit := λ w,
  match EXTENSION (lower (splitext_ext path)) with
  | None => (inl (ValueError "unknown file extension"), w)
  | Some PNG =>
      match faults w !! path with
      | Some e => (inl e, w)
      | None => (inr (), set_files (<[path := PngFile (png_encode img)]> (files w)) w)
      end
  end.

(** [Image.open(path)], loaded. *)
Definition open (path : string) : M image := λ w,
  match files w !! path with
  | None => (inl (OSError "No such file or directory"), w)
  | Some (PngFile p) => (png_decode p, w)
  | Some _ => (inl (OSError "cannot identify image file"), w)
  end.

End Image.

(** ** ImageFont *)
Module ImageFont.

(** [ImageFont.truetype(path, size)] *)
Definition truetype (path : string) (size : Z) : M Font := λ w,
  if negb (freetype w) then (inl (ImportError "The _imagingft C module is not installed"), w)
  else if size <=? 0 then (inl (ValueError "font size must be greater than 0"), w)
  else match files w !! path with
       | Some (FontFile f) =>
           (inr {| getbbox := face_bbox f size; getmask := face_mask f size |}, w)
       | Some _ => (inl (OSError "unknown file format"), w)
       | None => (inl (OSError "cannot open resource"), w)
       end.

(** [ImageFont.load_default(size=None)]: built in, cannot fail. *)
Definition load_default (size : option Z) : M Font := λ w,
  (inr (builtin_font w size), w).

End ImageFont.

(** ** ImageDraw *)
Module ImageDraw.

(** [draw.textbbox(xy, text, font=font)]: the ink box of [text] when it
    is drawn with its anchor at [xy]. *)
Definition textbbox (xy : Z * Z) (text : string) (font : Font) : box :=
  let '(x, y) := xy in
  let '(l, t, r, b) := getbbox font text in
  (x + l, y + t, x + r, y + b).

(** Pillow's 8-bit blend of an ink over a pixel through a mask value. *)
Definition MULDIV255 (a b : Z) : Z :=
  let tmp := a * b + 128 in ((tmp ≫ 8) + tmp) ≫ 8.

Definition BLEND8 (mask in1 in2 : Z) : Z :=
  MULDIV255 in1 (255 - mask) + MULDIV255 in2 mask.

Definition blend (mask : Z) (old ink : color) : color :=
  let '(r0, g0, b0) := old in
  let '(r1, g1, b1) := ink in
  (BLEND8 mask r0 r1, BLEND8 mask g0 g1, BLEND8 mask b0 b1).

(** The mask is an 8-bit image. *)
Definition coverage (font : Font) (text : string) (dx dy : Z) : Z :=
  Z.max 0 (Z.min 255 (getmask font text dx dy)).

(** One pass over a row-major buffer of width [w], from offset [i]:
    every pixel is blended with [ink] through the mask value at its
    coordinates. *)
Fixpoint draw_bitmap (mask : Z → Z → Z) (ink : color) (w i : Z)
    (data : list color) : list color :=
  match data with
  | [] => []
  | old :: rest =>
      blend (mask (i `mod` w) (i `div` w)) old ink
        :: draw_bitmap mask ink w (i + 1) rest
  end.

(** [draw.text(xy, text, fill=fill, font=font)]: the mask of [text],
    anchored at [xy], is blended into the buffer; what falls outside the
    buffer is clipped. *)
Definition text (img : image) (xy : Z * Z) (text : string) (fill : string)
    (font : Font) : exn + image :=
  let '(px, py) := xy in
  match ImageColor.getrgb fill with
  | None => inl (ValueError "unknown color specifier")
  | Some ink =>
      inr {| im_mode := im_mode img; im_size := im_size img;
             im_data :=
               draw_bitmap (λ x y, coverage font text (x - px) (y - py)) ink
                           (fst (im_size img)) 0 (im_data img) |}
  end.

End ImageDraw.

(** [print(line)] *)
Definition print (line : string) : M unit := λ w,
  (inr (), set_stdout (stdout w ++ [line]) w).

(** ** The script *)

Definition font_path : string :=
  "/usr/share/fonts/truetype/dejavu/DejaVuSans-Bold.ttf".

Definition output_path : string :=
  "/home/sol/n0de-deploy/frontend/public/apple-touch-icon.png".

(** Line 7. *)
Definition canvas : exn + image := Image.new RGB (180, 180) "#00D4FF".

(** Lines 11-16: the requested size reaches only the [try] branch. *)
Definition load_font (size : Z) : M Font :=
  try_except (ImageFont.truetype font_path size)
             (λ _, ImageFont.load_default None).

(** Lines 22-24, from the box of line 21. *)
Definition position (bbox : box) : Z * Z :=
  let '(l, t, r, b) := bbox in
  let text_width := r - l in
  let text_height := b - t in
  ((180 - text_width) `div` 2, (180 - text_height) `div` 2).

(** Lines 21-26. *)
Definition draw_glyph (img : image) (text : string) (font : Font) : exn + image :=
  let bbox := ImageDraw.textbbox (0, 0) text font in
  ImageDraw.text img (position bbox) text "black" font.

(** The whole script. *)
Definition main : M unit :=
  img ← lift canvas;
  font ← load_font 100;
  img ← lift (draw_glyph img "n" font);
  Image.save img output_path;;
  print ("Apple touch icon created at " +:+ output_path).

(** The in-memory image the script holds after line 26, as a function of
    the letter and of the font that was resolved. *)
Definition icon (text : string) (font : Font) : exn + image :=
  match canvas with
  | inr img => draw_glyph img text font
  | inl e => inl e
  end.

(** Lines 7-26 as one statement: the image held when line 30 starts. *)
Definition render : M image :=
  img ← lift canvas;
  font ← load_font 100;
  lift (draw_glyph img "n" font).

(** The font lines 11-16 leave in [font]. *)
Definition resolved_font (size : Z) (w : World) : Font :=
  match fst (ImageFont.truetype font_path size w) with
  | inr f => f
  | inl _ => builtin_font w None
  end.

(** Line 31's text. *)
Definition confirmation : string :=
  "Apple touch icon created at " +:+ output_path.

(** Where line 26 puts the ink: the box of the text anchored at the
    computed position. *)
Definition drawn_bbox (text : string) (font : Font) : box :=
  ImageDraw.textbbox (position (ImageDraw.textbbox (0, 0) text font)) text font.

(** ** Reading a box against the canvas *)

(** The centre of the box is within one pixel of the centre of the
    180x180 canvas (in half pixels: [l + r] against [180]). *)
Definition centered_within_1 (bx : box) : bool :=
  let '(l, t, r, b) := bx in
  (Z.abs (l + r - 180) <=? 2) && (Z.abs (t + b - 180) <=? 2).

Definition inside (bx : box) (x y : Z) : bool :=
  let '(l, t, r, b) := bx in
  (l <=? x) && (x <? r) && (t <=? y) && (y <? b).

(** A font whose mask has no ink outside the box it reports. *)
Definition tight (font : Font) (text : string) : Prop :=
  ∀ dx dy, inside (getbbox font text) dx dy = false → getmask font text dx dy <= 0.

Definition background : color := (0, 212, 255).
Definition black : color := (0, 0, 0).

(** The canvas line 7 allocates. *)
Definition blank : image :=
  {| im_mode := RGB; im_size := (180, 180);
     im_data := replicate (Z.to_nat (180 * 180)) background |}.

(** ** Sample environments *)

(** A face with the metrics of a bold sans-serif [n] at 100 pixels: the
    left side bearing puts the ink 8 pixels right of the anchor, and the
    x-height puts its top 37 pixels under the ascender line. *)
Definition bold_sans : Face :=
  {| face_bbox := λ size _, (8 * size `div` 100, 37 * size `div` 100,
                             64 * size `div` 100, 93 * size `div` 100);
     face_mask := λ size _ dx dy,
       if inside (8 * size `div` 100, 37 * size `div` 100,
                  64 * size `div` 100, 93 * size `div` 100) dx dy
       then 255 else 0 |}.

Definition bold_sans_100 : Font :=
  {| getbbox := face_bbox bold_sans 100; getmask := face_mask bold_sans 100 |}.

(** A fixed-size bitmap font: every string is a 6x11 cell at the anchor. *)
Definition bitmap_font : Font :=
  {| getbbox := λ _, (0, 0, 6, 11);
     getmask := λ _ dx dy, if inside (0, 0, 6, 11) dx dy then 255 else 0 |}.

(** A built-in font that honours a size when it is given one and is the
    bitmap font otherwise. *)
Definition sized_builtin (size : option Z) : Font :=
  match size with
  | None => bitmap_font
  | Some s => {| getbbox := face_bbox bold_sans s; getmask := face_mask bold_sans s |}
  end.

(** No font file, nothing at the output path, the parent directory there. *)
Definition bare_world : World :=
  {| files := ∅; faults := ∅; freetype := true;
     builtin_font := sized_builtin; stdout := [] |}.

(** The font file is installed. *)
Definition font_world : World :=
  set_files {[ font_path := FontFile bold_sans ]} bare_world.

(** The directory of the output path does not exist. *)
Definition readonly_world : World :=
  {| files := ∅;
     faults := {[ output_path := OSError "No such file or directory" ]};
     freetype := true; builtin_font := sized_builtin; stdout := [] |}.


(** A file of some other kind sitting at the output path before the run. *)
Definition stale_world : World :=
  set_files {[ output_path := Raw [137; 80; 78; 71] ]} bare_world.

(** ** Facts about the Pillow operations *)

Section Blend.
Import ImageDraw.

Lemma MULDIV255_zero a : MULDIV255 a 0 = 0.
Proof. unfold MULDIV255. replace (a * 0 + 128) with 128 by lia. reflexivity. Qed.

Lemma MULDIV255_full a : 0 <= a <= 255 → MULDIV255 a 255 = a.
Proof.
  intros Ha. unfold MULDIV255. cbv zeta.
  rewrite !Z.shiftr_div_pow2 by lia.
  change (2 ^ 8) with 256.
  destruct (Z_le_gt_dec a 128) as [Hle | Hgt].
  - replace ((a * 255 + 128) `div` 256) with a
      by (apply (Z.div_unique _ 256 a (128 - a)); lia).
    symmetry. apply (Z.div_unique _ 256 a 128); lia.
  - replace ((a * 255 + 128) `div` 256) with (a - 1)
      by (apply (Z.div_unique _ 256 (a - 1) (384 - a)); lia).
    symmetry. apply (Z.div_unique _ 256 a 127); lia.
Qed.

Lemma BLEND8_clear old ink : 0 <= old <= 255 → BLEND8 0 old ink = old.
Proof.
  intros H. unfold BLEND8. rewrite MULDIV255_zero.
  change (255 - 0) with 255. rewrite MULDIV255_full by done. lia.
Qed.

Lemma BLEND8_opaque old ink : 0 <= ink <= 255 → BLEND8 255 old ink = ink.
Proof.
  intros H. unfold BLEND8. change (255 - 255) with 0.
  rewrite MULDIV255_zero, MULDIV255_full by done. lia.
Qed.

Lemma blend_clear ink : blend 0 background ink = background.
Proof.
  destruct ink as [[r g] b]. unfold blend, background.
  rewrite !BLEND8_clear by lia. reflexivity.
Qed.

Lemma blend_opaque old : blend 255 old black = black.
Proof.
  destruct old as [[r g] b]. unfold blend, black.
  rewrite !BLEND8_opaque by lia. reflexivity.
Qed.

Lemma coverage_range font text dx dy : 0 <= coverage font text dx dy <= 255.
Proof. unfold coverage. lia. Qed.

Lemma coverage_none font text dx dy :
  getmask font text dx dy <= 0 → coverage font text dx dy = 0.
Proof. unfold coverage. lia. Qed.

Lemma coverage_all font text dx dy :
  255 <= getmask font text dx dy → coverage font text dx dy = 255.
Proof. unfold coverage. lia. Qed.

Variables (mask : Z → Z → Z) (ink : color) (w : Z).

Lemma length_draw_bitmap i data :
  length (draw_bitmap mask ink w i data) = length data.
Proof.
  revert i. induction data as [| old rest IH]; intros i; simpl; [done |].
  by rewrite IH.
Qed.

Lemma lookup_draw_bitmap i data (n : nat) :
  draw_bitmap mask ink w i data !! n =
    (λ old, blend (mask ((i + Z.of_nat n) `mod` w) ((i + Z.of_nat n) `div` w)) old ink)
      <$> data !! n.
Proof.
  revert i n. induction data as [| old rest IH]; intros i n; simpl.
  - by rewrite !lookup_nil.
  - destruct n as [| n].
    + simpl. by rewrite Z.add_0_r.
    + simpl. rewrite IH. by replace (i + 1 + Z.of_nat n) with (i + Z.of_nat (S n)) by lia.
Qed.

End Blend.

(** ** Facts about the script's image *)

Lemma new_spec m w h c rgb :
  0 <= w → 0 <= h → ImageColor.getrgb c = Some rgb →
  Image.new m (w, h) c =
    inr {| im_mode := m; im_size := (w, h);
           im_data := replicate (Z.to_nat (w * h)) rgb |}.
Proof.
  intros Hw Hh Hc. unfold Image.new. rewrite Hc.
  replace ((w <? 0) || (h <? 0)) with false; [done |].
  symmetry. apply orb_false_intro; lia.
Qed.

Lemma canvas_eq : canvas = inr blank.
Proof. unfold canvas, blank. by apply new_spec. Qed.

Lemma textbbox_origin text font :
  ImageDraw.textbbox (0, 0) text font = getbbox font text.
Proof.
  unfold ImageDraw.textbbox. by destruct (getbbox font text) as [[[l t] r] b].
Qed.

(** Row-major addressing inside a buffer of width [w]. *)
Lemma row_major w x y :
  0 <= x < w → 0 <= y → (y * w + x) `mod` w = x ∧ (y * w + x) `div` w = y.
Proof.
  intros Hx Hy. split.
  - symmetry. apply (Z.mod_unique _ w y x); lia.
  - symmetry. apply (Z.div_unique _ w y x); lia.
Qed.

Lemma getpixel_text img px py text fill font ink img' x y :
  ImageColor.getrgb fill = Some ink →
  ImageDraw.text img (px, py) text fill font = inr img' →
  0 <= x < fst (im_size img) → 0 <= y →
  Image.getpixel img' (x, y) =
    (λ old, ImageDraw.blend (ImageDraw.coverage font text (x - px) (y - py)) old ink)
      <$> Image.getpixel img (x, y).
Proof.
  intros Hink Htext Hx Hy. unfold ImageDraw.text in Htext. rewrite Hink in Htext.
  injection Htext as <-. unfold Image.getpixel. simpl.
  destruct (im_size img) as [w h]. simpl in Hx.
  destruct ((0 <=? x) && (x <? w) && (0 <=? y) && (y <? h)); [| done].
  rewrite lookup_draw_bitmap. rewrite Z.add_0_l, Z2Nat.id by nia. cbn [fst].
  by destruct (row_major w x y Hx Hy) as [-> ->].
Qed.

Lemma text_keeps_shape img xy text fill font img' :
  ImageDraw.text img xy text fill font = inr img' →
  im_size img' = im_size img ∧ im_mode img' = im_mode img
  ∧ length (im_data img') = length (im_data img).
Proof.
  unfold ImageDraw.text. destruct xy as [px py].
  destruct (ImageColor.getrgb fill) as [ink |]; [| done].
  intros [= <-]. simpl. by rewrite length_draw_bitmap.
Qed.

Lemma getpixel_fresh m w h c x y :
  0 <= x < w → 0 <= y < h →
  Image.getpixel {| im_mode := m; im_size := (w, h);
                    im_data := replicate (Z.to_nat (w * h)) c |} (x, y) = Some c.
Proof.
  intros Hx Hy. unfold Image.getpixel. cbn [im_size im_data].
  replace ((0 <=? x) && (x <? w) && (0 <=? y) && (y <? h)) with true
    by (symmetry; repeat (apply andb_true_intro; split); lia).
  apply lookup_replicate_2. nia.
Qed.

Lemma getpixel_blank x y :
  0 <= x < 180 → 0 <= y < 180 → Image.getpixel blank (x, y) = Some background.
Proof. intros Hx Hy. unfold blank. by apply getpixel_fresh. Qed.

(** The image after line 26, for any letter and any font. *)
Lemma icon_spec text font :
  ∃ img, icon text font = inr img
    ∧ im_mode img = RGB
    ∧ im_size img = (180, 180)
    ∧ length (im_data img) = Z.to_nat (180 * 180)
    ∧ ∀ x y, 0 <= x < 180 → 0 <= y < 180 →
        Image.getpixel img (x, y) =
          Some (ImageDraw.blend
                  (ImageDraw.coverage font text
                     (x - fst (position (getbbox font text)))
                     (y - snd (position (getbbox font text))))
                  background black).
Proof.
  unfold icon. rewrite canvas_eq. unfold draw_glyph. rewrite textbbox_origin.
  destruct (position (getbbox font text)) as [px py] eqn:Hpos.
  destruct (ImageDraw.text blank (px, py) text "black" font) as [e | img] eqn:Ht.
  { unfold ImageDraw.text in Ht. by rewrite (eq_refl : ImageColor.getrgb "black" = Some black) in Ht. }
  exists img. split; [done |].
  destruct (text_keeps_shape _ _ _ _ _ _ Ht) as (Hs & Hm & Hl).
  rewrite Hs, Hm, Hl. unfold blank at 1 2 3. cbn [im_mode im_size im_data fst snd].
  split; [done |]. split; [done |]. split; [by rewrite length_replicate |].
  intros x y Hx Hy.
  rewrite (getpixel_text blank px py text "black" font black img x y eq_refl Ht).
  - by rewrite (getpixel_blank x y Hx Hy).
  - unfold blank. cbn [im_size fst]. lia.
  - lia.
Qed.

(** ** Facts about the run *)

Lemma truetype_pure path size w : snd (ImageFont.truetype path size w) = w.
Proof.
  unfold ImageFont.truetype.
  destruct (negb (freetype w)), (size <=? 0); try done.
  by destruct (files w !! path) as [[| |] |].
Qed.

Lemma load_font_total size w : load_font size w = (inr (resolved_font size w), w).
Proof.
  unfold load_font, try_except, resolved_font.
  pose proof (truetype_pure font_path size w) as Hw.
  destruct (ImageFont.truetype font_path size w) as [[e | f] w']; simpl in *; by subst.
Qed.

Lemma render_total w :
  ∃ img, icon "n" (resolved_font 100 w) = inr img ∧ render w = (inr img, w).
Proof.
  destruct (icon_spec "n" (resolved_font 100 w)) as (img & Hicon & _).
  exists img. split; [done |].
  unfold render, mbind, M_bind, bind, lift. unfold icon in Hicon.
  rewrite canvas_eq in *. by rewrite load_font_total, Hicon.
Qed.

Lemma output_format : Image.EXTENSION (Image.lower (Image.splitext_ext output_path)) = Some Image.PNG.
Proof. reflexivity. Qed.

Lemma save_ok img w :
  faults w !! output_path = None →
  Image.save img output_path w =
    (inr (), set_files (<[output_path := PngFile (Image.png_encode img)]> (files w)) w).
Proof. intros H. unfold Image.save. by rewrite output_format, H. Qed.

Lemma save_fails img w e :
  faults w !! output_path = Some e → Image.save img output_path w = (inl e, w).
Proof. intros H. unfold Image.save. by rewrite output_format, H. Qed.

(** The script against the image it rendered. *)
Lemma main_render w :
  ∃ img, icon "n" (resolved_font 100 w) = inr img
    ∧ main w = (Image.save img output_path;; print confirmation) w.
Proof.
  destruct (icon_spec "n" (resolved_font 100 w)) as (img & Hicon & _).
  exists img. split; [done |].
  unfold main, mbind, M_bind, bind, lift. unfold icon in Hicon.
  rewrite canvas_eq in *. by rewrite load_font_total, Hicon.
Qed.

Lemma main_ok w img :
  icon "n" (resolved_font 100 w) = inr img →
  faults w !! output_path = None →
  main w = (inr (),
            set_stdout (stdout w ++ [confirmation])
              (set_files (<[output_path := PngFile (Image.png_encode img)]> (files w)) w)).
Proof.
  intros Hicon Hw. destruct (main_render w) as (img' & Hicon' & ->).
  assert (img' = img) as -> by congruence.
  unfold mbind, M_bind, bind. by rewrite save_ok.
Qed.

Lemma main_fails w e :
  faults w !! output_path = Some e → main w = (inl e, w).
Proof.
  intros Hw. destruct (main_render w) as (img & _ & ->).
  unfold mbind, M_bind, bind. by rewrite (save_fails img w e).
Qed.

Lemma paths_differ : font_path ≠ output_path.
Proof. done. Qed.

(** ** Position and centring (lines 21-26) *)

Lemma floor_half n : 2 * (n `div` 2) <= n <= 2 * (n `div` 2) + 1.
Proof. pose proof (Z.div_mod n 2). pose proof (Z.mod_pos_bound n 2). lia. Qed.

Lemma drawn_bbox_eq text font l t r b :
  getbbox font text = (l, t, r, b) →
  drawn_bbox text font =
    ((180 - (r - l)) `div` 2 + l, (180 - (b - t)) `div` 2 + t,
     (180 - (r - l)) `div` 2 + r, (180 - (b - t)) `div` 2 + b).
Proof.
  intros H. unfold drawn_bbox. rewrite textbbox_origin, H.
  unfold position, ImageDraw.textbbox. by rewrite H.
Qed.

(** How far the drawn box sits from the centre: twice the offset of the
    measured box from the anchor, less the rounding of the halving. *)
Lemma drawn_bbox_offset text font l t r b :
  getbbox font text = (l, t, r, b) →
  ∃ L T R B, drawn_bbox text font = (L, T, R, B)
    ∧ 2 * l - 1 <= L + R - 180 <= 2 * l
    ∧ 2 * t - 1 <= T + B - 180 <= 2 * t.
Proof.
  intros H. rewrite (drawn_bbox_eq _ _ _ _ _ _ H). do 4 eexists. split; [done |].
  pose proof (floor_half (180 - (r - l))). pose proof (floor_half (180 - (b - t))). lia.
Qed.

(** A box measured at the anchor itself is centred by the script. *)
Lemma anchored_box_centered text font r b :
  getbbox font text = (0, 0, r, b) → centered_within_1 (drawn_bbox text font) = true.
Proof.
  intros H. destruct (drawn_bbox_offset _ _ _ _ _ _ H) as (L & T & R & B & -> & HL & HT).
  unfold centered_within_1. apply andb_true_intro. split; apply Z.leb_le; lia.
Qed.

(** C1, at the installed bold face: line 21 measures the letter at
    (8, 37, 64, 93) from the anchor, line 24 takes only the width and the
    height of that box, and line 26 anchors the text at (62, 62); the ink
    then occupies (70, 99, 126, 155), whose centre (98, 127) is 8 pixels
    right of and 37 pixels below the centre of the canvas.  The drawn box is
    not centred within one pixel. *)
Theorem C1_glyph_off_centre :
  fst (load_font 100 font_world) = inr bold_sans_100
  ∧ ImageDraw.textbbox (0, 0) "n" bold_sans_100 = (8, 37, 64, 93)
  ∧ position (8, 37, 64, 93) = (62, 62)
  ∧ drawn_bbox "n" bold_sans_100 = (70, 99, 126, 155)
  ∧ centered_within_1 (drawn_bbox "n" bold_sans_100) = false.
Proof. repeat split; vm_compute; reflexivity. Qed.

(** C4: the draw position is
    [((180 - text_width) // 2, (180 - text_height) // 2)], the width and
    height being those of the box measured at the origin, and [//] rounds
    towards minus infinity: twice a coordinate is the difference or one less,
    also when the text is larger than the canvas. *)
Theorem C4_position_formula (img : image) (text : string) (font : Font) (l t r b : Z) :
  ImageDraw.textbbox (0, 0) text font = (l, t, r, b) →
  let text_width := r - l in
  let text_height := b - t in
  let pos := ((180 - text_width) `div` 2, (180 - text_height) `div` 2) in
  position (l, t, r, b) = pos
  ∧ draw_glyph img text font = ImageDraw.text img pos text "black" font
  ∧ 2 * fst pos <= 180 - text_width <= 2 * fst pos + 1
  ∧ 2 * snd pos <= 180 - text_height <= 2 * snd pos + 1.
Proof.
  intros Hbox. cbv zeta. split; [done |]. split.
  - unfold draw_glyph. by rewrite Hbox.
  - cbn [fst snd]. split; apply floor_half.
Qed.

Lemma C4_witness :
  position (8, 37, 64, 93) = (62, 62) ∧ position (0, 0, 181, 7) = (-1, 86).
Proof.
  split.
  - exact (proj1 (C4_position_formula blank "n" bold_sans_100 8 37 64 93 eq_refl)).
  - exact (proj1 (C4_position_formula blank "n"
                    {| getbbox := λ _, (0, 0, 181, 7); getmask := λ _ _ _, 0 |}
                    0 0 181 7 eq_refl)).
Defined.

(** ** Dimensions and frame *)

(** C3: whatever the letter and the font, the image after drawing is
    180x180 with 180*180 pixels; drawing never changes the size of the
    image it draws on; and the header of the file a successful run wrote
    says 180x180. *)
Theorem C3_dimensions_fixed :
  (∀ text font, ∃ img, icon text font = inr img
      ∧ im_size img = (180, 180) ∧ length (im_data img) = Z.to_nat (180 * 180))
  ∧ (∀ img xy text fill font img',
       ImageDraw.text img xy text fill font = inr img' →
       im_size img' = im_size img ∧ length (im_data img') = length (im_data img))
  ∧ (∀ w, ∃ img, render w = (inr img, w) ∧ im_size img = (180, 180))
  ∧ (∀ w, fst (main w) = inr () →
       ∃ p, files (snd (main w)) !! output_path = Some (PngFile p)
         ∧ ihdr_width p = 180 ∧ ihdr_height p = 180).
Proof.
  split; [| split; [| split]].
  - intros text font. destruct (icon_spec text font) as (img & H & _ & Hs & Hl & _).
    by exists img.
  - intros img xy text fill font img' H.
    by destruct (text_keeps_shape _ _ _ _ _ _ H) as (? & _ & ?).
  - intros w. destruct (render_total w) as (img & Hicon & Hr). exists img. split; [done |].
    destruct (icon_spec "n" (resolved_font 100 w)) as (img' & H & _ & Hs & _).
    congruence.
  - intros w Hok. destruct (icon_spec "n" (resolved_font 100 w)) as (img & Hicon & _ & Hs & _).
    destruct (faults w !! output_path) as [e |] eqn:Hf.
    + rewrite (main_fails w e Hf) in Hok. done.
    + rewrite (main_ok w img Hicon Hf). cbn [snd set_stdout set_files files].
      exists (Image.png_encode img). rewrite lookup_insert_eq. split; [done |].
      unfold Image.png_encode. cbn [ihdr_width ihdr_height]. by rewrite Hs.
Qed.

(** Ink of a tight font stays inside the drawn box. *)
Lemma coverage_outside_drawn_bbox text font x y :
  tight font text → inside (drawn_bbox text font) x y = false →
  ImageDraw.coverage font text (x - fst (position (getbbox font text)))
    (y - snd (position (getbbox font text))) = 0.
Proof.
  intros Htight Hout. apply coverage_none, Htight.
  destruct (getbbox font text) as [[[l t] r] b] eqn:Hbox.
  rewrite (drawn_bbox_eq _ _ _ _ _ _ Hbox) in Hout.
  unfold position. cbn [fst snd]. unfold inside in *.
  rewrite !andb_false_iff, !Z.leb_gt, !Z.ltb_ge in *. lia.
Qed.

Lemma uncovered_pixel_background text font img x y :
  icon text font = inr img →
  0 <= x < 180 → 0 <= y < 180 →
  ImageDraw.coverage font text (x - fst (position (getbbox font text)))
    (y - snd (position (getbbox font text))) = 0 →
  Image.getpixel img (x, y) = Some background.
Proof.
  intros Hicon Hx Hy Hcov.
  destruct (icon_spec text font) as (img' & Hicon' & _ & _ & _ & Hpix).
  assert (img' = img) as -> by congruence.
  rewrite (Hpix x y Hx Hy), Hcov. by rewrite blend_clear.
Qed.

Lemma covered_pixel_black text font img x y :
  icon text font = inr img →
  0 <= x < 180 → 0 <= y < 180 →
  ImageDraw.coverage font text (x - fst (position (getbbox font text)))
    (y - snd (position (getbbox font text))) = 255 →
  Image.getpixel img (x, y) = Some black.
Proof.
  intros Hicon Hx Hy Hcov.
  destruct (icon_spec text font) as (img' & Hicon' & _ & _ & _ & Hpix).
  assert (img' = img) as -> by congruence.
  rewrite (Hpix x y Hx Hy), Hcov. by rewrite blend_opaque.
Qed.

(** For a font whose ink stays in the box it reports, every canvas pixel
    outside the drawn box is untouched. *)
Lemma outside_drawn_bbox_untouched text font img x y :
  tight font text → icon text font = inr img →
  0 <= x < 180 → 0 <= y < 180 →
  inside (drawn_bbox text font) x y = false →
  Image.getpixel img (x, y) = Some background.
Proof.
  intros Htight Hicon Hx Hy Hout.
  apply (uncovered_pixel_background text font img x y Hicon Hx Hy).
  by apply coverage_outside_drawn_bbox.
Qed.

(** C9: in the image after line 26, a canvas pixel on which the mask of
    the rendered text has no coverage still holds the colour the canvas was
    filled with, #00D4FF. *)
Theorem C9_frame (text : string) (font : Font) (img : image) (x y : Z) :
  icon text font = inr img →
  0 <= x < 180 → 0 <= y < 180 →
  ImageDraw.coverage font text (x - fst (position (getbbox font text)))
    (y - snd (position (getbbox font text))) = 0 →
  Image.getpixel img (x, y) = Some (0, 212, 255).
Proof. apply uncovered_pixel_background. Qed.

Lemma C9_witness :
  ∃ img, icon "n" bold_sans_100 = inr img
    ∧ Image.getpixel img (69, 99) = Some (0, 212, 255)
    ∧ Image.getpixel img (0, 0) = Some (0, 212, 255).
Proof.
  destruct (icon_spec "n" bold_sans_100) as (img & Hicon & _).
  exists img. split; [exact Hicon |].
  split; apply (C9_frame "n" bold_sans_100 img _ _ Hicon); try lia; reflexivity.
Defined.

(** ** The font fallback (lines 11-16) *)

Lemma resolved_font_fallback size w e :
  fst (ImageFont.truetype font_path size w) = inl e →
  resolved_font size w = builtin_font w None.
Proof. intros H. unfold resolved_font. by rewrite H. Qed.

Lemma resolved_font_loaded size w f :
  fst (ImageFont.truetype font_path size w) = inr f → resolved_font size w = f.
Proof. intros H. unfold resolved_font. by rewrite H. Qed.

Lemma png_roundtrip img : Image.png_decode (Image.png_encode img) = inr img.
Proof. by destruct img as [[| |] [w h] data]. Qed.

(** Either the write is refused and the run stops there with the world as
    it was, or the file is written and the line is printed. *)
Lemma main_cases w :
  ∃ img, icon "n" (resolved_font 100 w) = inr img
    ∧ ((∃ e, faults w !! output_path = Some e ∧ main w = (inl e, w))
       ∨ (faults w !! output_path = None
          ∧ main w = (inr (),
                      set_stdout (stdout w ++ [confirmation])
                        (set_files (<[output_path := PngFile (Image.png_encode img)]> (files w)) w)))).
Proof.
  destruct (icon_spec "n" (resolved_font 100 w)) as (img & Hicon & _).
  exists img. split; [done |].
  destruct (faults w !! output_path) as [e |] eqn:Hf.
  - left. exists e. split; [done |]. by apply main_fails.
  - right. split; [done |]. by apply main_ok.
Qed.

Lemma open_after_main w img :
  icon "n" (resolved_font 100 w) = inr img →
  faults w !! output_path = None →
  Image.open output_path (snd (main w)) = (inr img, snd (main w)).
Proof.
  intros Hicon Hf. rewrite (main_ok w img Hicon Hf). cbn [snd].
  unfold Image.open. cbn [files set_stdout set_files].
  by rewrite lookup_insert_eq, png_roundtrip.
Qed.

(** C2: when loading the font raises, whatever the exception, the
    built-in font takes its place and the exception goes no further: the
    run continues exactly as the save and the print of the 180x180 image
    drawn with the built-in font; the only exception a run can then end
    with is the one the output path raises on opening, and where the path
    can be written the run succeeds and the file decodes to that image. *)
Theorem C2_font_failure_falls_back (w : World) (e : exn) :
  fst (ImageFont.truetype font_path 100 w) = inl e →
  load_font 100 w = (inr (builtin_font w None), w)
  ∧ ∃ img, icon "n" (builtin_font w None) = inr img
      ∧ im_size img = (180, 180)
      ∧ main w = (Image.save img output_path;; print confirmation) w
      ∧ (∀ e', fst (main w) = inl e' → faults w !! output_path = Some e')
      ∧ (faults w !! output_path = None →
           fst (main w) = inr ()
           ∧ Image.open output_path (snd (main w)) = (inr img, snd (main w))).
Proof.
  intros Hfail. pose proof (resolved_font_fallback 100 w e Hfail) as Hres.
  split; [by rewrite load_font_total, Hres |].
  destruct (main_render w) as (img & Hicon & Hmain).
  destruct (icon_spec "n" (resolved_font 100 w)) as (img' & Hicon' & _ & Hs & _).
  assert (img' = img) as -> by congruence.
  exists img. rewrite <- Hres. split; [done |]. split; [done |]. split; [done |]. split.
  - intros e' He'. destruct (faults w !! output_path) as [e0 |] eqn:Hf.
    + rewrite (main_fails w e0 Hf) in He'. simpl in He'. congruence.
    + by rewrite (main_ok w img Hicon Hf) in He'.
  - intros Hf. split; [by rewrite (main_ok w img Hicon Hf) | by apply open_after_main].
Qed.

Lemma C2_witness :
  load_font 100 bare_world = (inr (builtin_font bare_world None), bare_world).
Proof.
  exact (proj1 (C2_font_failure_falls_back bare_world
                  (OSError "cannot open resource") eq_refl)).
Defined.

(** C10: in the fallback branch the font is [load_default()] with no size:
    the 100 of line 13 does not reach it.  Whatever size line 13 asks for,
    a failed load leaves the same font, and the letter is measured with the
    built-in font's own box. *)
Theorem C10_fallback_ignores_size (w : World) (e : exn) :
  fst (ImageFont.truetype font_path 100 w) = inl e →
  load_font 100 w = ImageFont.load_default None w
  ∧ (∀ size e', fst (ImageFont.truetype font_path size w) = inl e' →
       load_font size w = load_font 100 w)
  ∧ ImageDraw.textbbox (0, 0) "n" (resolved_font 100 w) = getbbox (builtin_font w None) "n".
Proof.
  intros Hfail. pose proof (resolved_font_fallback 100 w e Hfail) as Hres.
  split; [by rewrite load_font_total, Hres |]. split.
  - intros size e' Hsize. rewrite !load_font_total.
    by rewrite (resolved_font_fallback size w e' Hsize), Hres.
  - by rewrite textbbox_origin, Hres.
Qed.

Lemma C10_witness :
  ImageDraw.textbbox (0, 0) "n" (resolved_font 100 bare_world) = (0, 0, 6, 11)
  ∧ getbbox (builtin_font bare_world (Some 100)) "n" = (8, 37, 64, 93).
Proof.
  split; [| reflexivity].
  exact (proj2 (proj2 (C10_fallback_ignores_size bare_world
                         (OSError "cannot open resource") eq_refl))).
Defined.

(** ** The run as a whole (lines 7-31) *)

(** C5: with the font file installed and parsed at size 100 and an output
    path that can be written, the run succeeds; the image is 180x180, mode
    RGB with the three bands R, G, B and no alpha; a pixel the letter's mask
    does not cover is #00D4FF and a pixel it covers fully is black; and the
    saved file decodes to that image, of size (180, 180). *)
Theorem C5_end_to_end (w : World) (face : Face) :
  freetype w = true →
  files w !! font_path = Some (FontFile face) →
  faults w !! output_path = None →
  let font := {| getbbox := face_bbox face 100; getmask := face_mask face 100 |} in
  let pos := position (getbbox font "n") in
  ∃ img, fst (render w) = inr img
    ∧ fst (main w) = inr ()
    ∧ im_size img = (180, 180)
    ∧ im_mode img = RGB
    ∧ Image.getbands (im_mode img) = ["R"; "G"; "B"]
    ∧ (∀ x y, 0 <= x < 180 → 0 <= y < 180 →
         ImageDraw.coverage font "n" (x - fst pos) (y - snd pos) = 0 →
         Image.getpixel img (x, y) = Some (0, 212, 255))
    ∧ (∀ x y, 0 <= x < 180 → 0 <= y < 180 →
         ImageDraw.coverage font "n" (x - fst pos) (y - snd pos) = 255 →
         Image.getpixel img (x, y) = Some (0, 0, 0))
    ∧ files (snd (main w)) !! output_path = Some (PngFile (Image.png_encode img))
    ∧ ihdr_color_type (Image.png_encode img) = 2
    ∧ ∃ img', fst (Image.open output_path (snd (main w))) = inr img'
        ∧ im_size img' = (180, 180).
Proof.
  intros Hft Hfile Hf font pos.
  assert (resolved_font 100 w = font) as Hres.
  { apply resolved_font_loaded. unfold ImageFont.truetype. by rewrite Hft, Hfile. }
  destruct (render_total w) as (img & Hicon & Hrender).
  destruct (icon_spec "n" (resolved_font 100 w)) as (img' & Hicon' & Hm & Hs & _).
  assert (img' = img) as -> by congruence.
  exists img. rewrite Hrender, (main_ok w img Hicon Hf), Hm.
  cbn [fst snd files set_stdout set_files].
  rewrite Hres in Hicon.
  split; [done |]. split; [done |]. split; [done |]. split; [done |]. split; [done |].
  split; [intros x y; by apply uncovered_pixel_background |].
  split; [intros x y; by apply covered_pixel_black |].
  split; [by rewrite lookup_insert_eq |].
  split; [unfold Image.png_encode; cbn [ihdr_color_type]; by rewrite Hm |].
  exists img. split; [| done].
  unfold Image.open. cbn [files set_stdout set_files].
  by rewrite lookup_insert_eq, png_roundtrip.
Qed.

Lemma C5_witness :
  ∃ img, fst (render font_world) = inr img
    ∧ fst (main font_world) = inr ()
    ∧ im_size img = (180, 180)
    ∧ Image.getpixel img (0, 0) = Some (0, 212, 255)
    ∧ Image.getpixel img (100, 120) = Some (0, 0, 0).
Proof.
  destruct (C5_end_to_end font_world bold_sans eq_refl eq_refl eq_refl)
    as (img & Hr & Hm & Hs & _ & _ & Hbg & Hink & _).
  exists img. split; [exact Hr |]. split; [exact Hm |]. split; [exact Hs |].
  split; [apply Hbg | apply Hink]; try lia; reflexivity.
Defined.

(** C6: an exception raised when the output path is opened for writing is
    the result of the run; the world is left as it was, so nothing was
    printed.  When the path can be written the run succeeds, the file is
    there, and the output has grown by exactly the confirmation line, which
    names the output path.  So anything printed means the save completed. *)
Theorem C6_write_failure_propagates (w : World) :
  (∀ e, faults w !! output_path = Some e →
     fst (main w) = inl e ∧ stdout (snd (main w)) = stdout w ∧ snd (main w) = w)
  ∧ (faults w !! output_path = None →
     fst (main w) = inr ()
     ∧ stdout (snd (main w)) = (stdout w ++ [confirmation])%list
     ∧ is_Some (files (snd (main w)) !! output_path))
  ∧ (stdout (snd (main w)) ≠ stdout w →
     fst (main w) = inr () ∧ is_Some (files (snd (main w)) !! output_path))
  ∧ confirmation =
      "Apple touch icon created at /home/sol/n0de-deploy/frontend/public/apple-touch-icon.png".
Proof.
  destruct (main_cases w) as (img & Hicon & [(e0 & Hf & Hmain) | (Hf & Hmain)]);
    rewrite Hmain; cbn [fst snd stdout files set_stdout set_files].
  - split; [| split; [| split]]; try done.
    + intros e He. split; [congruence | done].
    + intros He. congruence.
  - split; [| split; [| split]]; try done.
    + intros e He. congruence.
    + intros _. split; [done |]. split; [done |]. by rewrite lookup_insert_eq.
    + intros _. split; [done |]. by rewrite lookup_insert_eq.
Qed.

Lemma C6_witness :
  fst (main readonly_world) = inl (OSError "No such file or directory")
  ∧ stdout (snd (main readonly_world)) = []
  ∧ stdout (snd (main bare_world)) = [confirmation].
Proof.
  destruct (proj1 (C6_write_failure_propagates readonly_world)
              (OSError "No such file or directory") eq_refl) as (Hr & Hout & _).
  destruct (proj1 (proj2 (C6_write_failure_propagates bare_world)) eq_refl)
    as (_ & Hout' & _).
  split; [exact Hr |]. split; [exact Hout | exact Hout'].
Defined.

(** C7: two runs that resolve the same font, in worlds that may differ in
    everything else (other files, refused paths, earlier output), hold the
    same image after line 26: the same dimensions, 180x180, the same
    background wherever the letter leaves it visible, and the same pixels
    throughout. *)
Theorem C7_deterministic (w1 w2 : World) (img1 img2 : image) :
  resolved_font 100 w1 = resolved_font 100 w2 →
  fst (render w1) = inr img1 →
  fst (render w2) = inr img2 →
  im_size img1 = im_size img2
  ∧ im_size img1 = (180, 180)
  ∧ (∀ x y c, 0 <= x < 180 → 0 <= y < 180 →
       Image.getpixel img1 (x, y) = Some c → Image.getpixel img2 (x, y) = Some c)
  ∧ img1 = img2.
Proof.
  intros Hfont H1 H2.
  destruct (render_total w1) as (i1 & Hi1 & Hr1).
  destruct (render_total w2) as (i2 & Hi2 & Hr2).
  rewrite Hr1 in H1. rewrite Hr2 in H2. simpl in H1, H2.
  assert (i1 = img1) as -> by congruence. assert (i2 = img2) as -> by congruence.
  assert (img1 = img2) as <- by (rewrite Hfont in Hi1; congruence).
  destruct (icon_spec "n" (resolved_font 100 w1)) as (i & Hi & _ & Hs & _).
  assert (i = img1) as -> by congruence.
  done.
Qed.

Lemma C7_witness :
  ∃ img1 img2, fst (render bare_world) = inr img1
    ∧ fst (render readonly_world) = inr img2
    ∧ im_size img1 = im_size img2 ∧ img1 = img2.
Proof.
  destruct (render_total bare_world) as (img1 & _ & H1).
  destruct (render_total readonly_world) as (img2 & _ & H2).
  exists img1, img2.
  assert (fst (render bare_world) = inr img1) as H1' by (rewrite H1; reflexivity).
  assert (fst (render readonly_world) = inr img2) as H2' by (rewrite H2; reflexivity).
  destruct (C7_deterministic bare_world readonly_world img1 img2 eq_refl H1' H2')
    as (Hs & _ & _ & Heq).
  split; [exact H1' |]. split; [exact H2' |]. split; [exact Hs | exact Heq].
Defined.

(** ** Running twice *)

(** A run leaves the installation, the refused paths and every file other
    than the output file as they were. *)
Lemma main_preserves w :
  freetype (snd (main w)) = freetype w
  ∧ builtin_font (snd (main w)) = builtin_font w
  ∧ faults (snd (main w)) = faults w
  ∧ ∀ p, p ≠ output_path → files (snd (main w)) !! p = files w !! p.
Proof.
  destruct (main_cases w) as (img & _ & [(e & _ & ->) | (_ & ->)]); [done |].
  cbn [snd freetype builtin_font faults files set_stdout set_files].
  repeat split. intros p Hp. rewrite lookup_insert_ne; [done | congruence].
Qed.

Lemma resolved_font_after_main size w :
  resolved_font size (snd (main w)) = resolved_font size w.
Proof.
  destruct (main_preserves w) as (Hft & Hb & _ & Hfiles).
  unfold resolved_font, ImageFont.truetype.
  rewrite Hft, Hb, (Hfiles font_path paths_differ).
  destruct (negb (freetype w)), (size <=? 0); try done.
  by destruct (files w !! font_path) as [[| |] |].
Qed.

(** C8: after two runs the filesystem is the one a single run leaves: no
    path other than the output path has changed (no backup, no second
    file), and when the path can be written both runs succeed and the
    output path holds exactly the stream of the image the second run
    rendered. *)
Theorem C8_overwrite (w : World) :
  let w1 := snd (main w) in
  let w2 := snd (main w1) in
  files w2 = files w1
  ∧ (∀ p, p ≠ output_path → files w2 !! p = files w !! p)
  ∧ (faults w !! output_path = None →
     fst (main w) = inr () ∧ fst (main w1) = inr ()
     ∧ ∃ img, fst (render w1) = inr img
         ∧ files w2 !! output_path = Some (PngFile (Image.png_encode img))
         ∧ files (snd (main w)) !! output_path = Some (PngFile (Image.png_encode img))).
Proof.
  intros w1 w2.
  destruct (main_preserves w) as (_ & _ & Hfaults & Hfiles).
  destruct (main_preserves w1) as (_ & _ & _ & Hfiles1).
  pose proof (resolved_font_after_main 100 w) as Hfont. fold w1 in Hfont, Hfaults, Hfiles.
  split; [| split].
  - subst w2.
    destruct (main_cases w1) as (img1 & Hi1 & [(e & _ & ->) | (Hf1 & ->)]); [done |].
    cbn [snd files set_stdout set_files].
    destruct (main_cases w) as (img & Hi & [(e & Hf & _) | (_ & Hw1)]).
    { rewrite Hfaults in Hf1. congruence. }
    assert (img1 = img) as -> by (rewrite Hfont in Hi1; congruence).
    subst w1. rewrite Hw1. cbn [snd files set_stdout set_files].
    by rewrite insert_insert_eq.
  - intros p Hp. subst w2. by rewrite (Hfiles1 p Hp), (Hfiles p Hp).
  - intros Hf.
    destruct (render_total w1) as (img & Hicon1 & Hr1).
    assert (icon "n" (resolved_font 100 w) = inr img) as Hicon by (by rewrite <- Hfont).
    assert (faults w1 !! output_path = None) as Hf1 by (by rewrite Hfaults).
    split; [by rewrite (main_ok w img Hicon Hf) |].
    split; [by rewrite (main_ok w1 img Hicon1 Hf1) |].
    exists img. split; [by rewrite Hr1 |].
    subst w2. rewrite (main_ok w1 img Hicon1 Hf1), (main_ok w img Hicon Hf).
    cbn [snd files set_stdout set_files]. by rewrite !lookup_insert_eq.
Qed.

Lemma C8_witness :
  files (snd (main (snd (main bare_world)))) = files (snd (main bare_world))
  ∧ fst (main (snd (main bare_world))) = inr ().
Proof.
  destruct (C8_overwrite bare_world) as (Hsame & _ & Hok).
  destruct (Hok eq_refl) as (_ & H2 & _).
  split; [exact Hsame | exact H2].
Defined.

(** ** Where the letter lands (lines 21-26), in general *)

(** For every letter and font, line 26 draws a box of the measured width
    and height, and its centre leaves the centre of the canvas by the
    offset of the measured box from the anchor: twice the left (top)
    offset, less one when the width (height) is odd. *)
Theorem drawn_box_displacement (text : string) (font : Font) (l t r b : Z) :
  getbbox font text = (l, t, r, b) →
  ∃ L T R B, drawn_bbox text font = (L, T, R, B)
    ∧ R - L = r - l ∧ B - T = b - t
    ∧ L + R - 180 = 2 * l - (r - l) `mod` 2
    ∧ T + B - 180 = 2 * t - (b - t) `mod` 2.
Proof.
  intros H. rewrite (drawn_bbox_eq _ _ _ _ _ _ H). do 4 eexists. split; [done |].
  pose proof (Z.div_mod (180 - (r - l)) 2). pose proof (Z.div_mod (180 - (b - t)) 2).
  assert (∀ n, (180 - n) `mod` 2 = n `mod` 2) as Hpar.
  { intros n. replace (180 - n) with (n + (90 - n) * 2) by lia. apply Z.mod_add. lia. }
  rewrite <- (Hpar (r - l)), <- (Hpar (b - t)). lia.
Qed.

Lemma drawn_box_displacement_witness :
  ∃ L T R B, drawn_bbox "n" bold_sans_100 = (L, T, R, B)
    ∧ R - L = 56 ∧ B - T = 56 ∧ L + R - 180 = 16 ∧ T + B - 180 = 74.
Proof.
  destruct (drawn_box_displacement "n" bold_sans_100 8 37 64 93 eq_refl)
    as (L & T & R & B & Hbox & Hw & Hh & Hx & Hy).
  exists L, T, R, B. split; [exact Hbox |].
  split; [exact Hw |]. split; [exact Hh |]. split; [exact Hx | exact Hy].
Defined.

(** When the measured box starts at the anchor and fits the canvas, the
    drawn box lies inside the canvas, is centred within one pixel, and the
    rounding leaves the spare pixel on the right and at the bottom. *)
Theorem anchored_glyph_centred (text : string) (font : Font) (r b : Z) :
  getbbox font text = (0, 0, r, b) →
  0 <= r <= 180 → 0 <= b <= 180 →
  ∃ L T R B, drawn_bbox text font = (L, T, R, B)
    ∧ centered_within_1 (L, T, R, B) = true
    ∧ 0 <= L ∧ R <= 180 ∧ 0 <= T ∧ B <= 180
    ∧ 0 <= (180 - R) - L <= 1
    ∧ 0 <= (180 - B) - T <= 1.
Proof.
  intros H Hr Hb. rewrite (drawn_bbox_eq _ _ _ _ _ _ H). do 4 eexists. split; [done |].
  pose proof (floor_half (180 - (r - 0))). pose proof (floor_half (180 - (b - 0))).
  split; [| lia].
  unfold centered_within_1. apply andb_true_intro. split; apply Z.leb_le; lia.
Qed.

Lemma anchored_glyph_centred_witness :
  ∃ L T R B, drawn_bbox "n" bitmap_font = (L, T, R, B)
    ∧ centered_within_1 (L, T, R, B) = true.
Proof.
  destruct (anchored_glyph_centred "n" bitmap_font 6 11 eq_refl) as
    (L & T & R & B & Hbox & Hc & _); [lia | lia |].
  exists L, T, R, B. split; [exact Hbox | exact Hc].
Defined.

(** ** What the image can contain *)

Lemma bitmap_font_tight text : tight bitmap_font text.
Proof.
  intros dx dy Hout. cbn [getmask getbbox bitmap_font] in *. by rewrite Hout.
Qed.

(** With a font whose ink stays inside the box it reports, every canvas
    pixel outside the box drawn at the computed position still holds the
    background colour. *)
Theorem pixels_outside_drawn_box (text : string) (font : Font) (img : image) (x y : Z) :
  tight font text →
  icon text font = inr img →
  0 <= x < 180 → 0 <= y < 180 →
  inside (drawn_bbox text font) x y = false →
  Image.getpixel img (x, y) = Some (0, 212, 255).
Proof. apply outside_drawn_bbox_untouched. Qed.

Lemma pixels_outside_drawn_box_witness :
  ∃ img, icon "n" bitmap_font = inr img
    ∧ Image.getpixel img (86, 84) = Some (0, 212, 255)
    ∧ Image.getpixel img (179, 179) = Some (0, 212, 255).
Proof.
  destruct (icon_spec "n" bitmap_font) as (img & Hicon & _).
  exists img. split; [exact Hicon |].
  split; apply (pixels_outside_drawn_box "n" bitmap_font img _ _
                  (bitmap_font_tight "n") Hicon); try lia; reflexivity.
Defined.



Lemma MULDIV255_bounds a b : 0 <= a → 0 <= b <= 255 → 0 <= ImageDraw.MULDIV255 a b <= a.
Proof.
  intros Ha Hb. unfold ImageDraw.MULDIV255. cbv zeta.
  rewrite !Z.shiftr_div_pow2 by lia. change (2 ^ 8) with 256.
  assert (0 <= a * b <= 255 * a) as Hab by nia.
  pose proof (Z.div_mod (a * b + 128) 256) as Hq.
  pose proof (Z.mod_pos_bound (a * b + 128) 256) as Hm.
  split.
  - apply Z.div_pos; lia.
  - apply Z.lt_succ_r, Z.div_lt_upper_bound; lia.
Qed.

Lemma blend_black_bounds m r g b r' g' b' :
  0 <= m <= 255 → 0 <= r → 0 <= g → 0 <= b →
  ImageDraw.blend m (r, g, b) black = (r', g', b') →
  0 <= r' <= r ∧ 0 <= g' <= g ∧ 0 <= b' <= b.
Proof.
  intros Hm Hr Hg Hb. unfold ImageDraw.blend, black, ImageDraw.BLEND8.
  intros [= <- <- <-].
  assert (ImageDraw.MULDIV255 0 m = 0) as -> by (unfold ImageDraw.MULDIV255; reflexivity).
  pose proof (MULDIV255_bounds r (255 - m)). pose proof (MULDIV255_bounds g (255 - m)).
  pose proof (MULDIV255_bounds b (255 - m)). lia.
Qed.

(** Drawing in black only darkens: every pixel of the image after line 26
    has no red at all, green between 0 and 212 and blue between 0 and 255,
    so it lies between black and the background #00D4FF, whatever the font
    and however its mask covers the pixel. *)
Theorem icon_pixels_between (text : string) (font : Font) (img : image)
    (x y r g b : Z) :
  icon text font = inr img →
  Image.getpixel img (x, y) = Some (r, g, b) →
  r = 0 ∧ 0 <= g <= 212 ∧ 0 <= b <= 255.
Proof.
  intros Hicon Hpx.
  assert (0 <= x < 180 ∧ 0 <= y < 180) as [Hx Hy].
  { destruct (icon_spec text font) as (img' & Hicon' & _ & Hs & _).
    assert (img' = img) as -> by congruence.
    unfold Image.getpixel in Hpx. rewrite Hs in Hpx.
    destruct ((0 <=? x) && (x <? 180) && (0 <=? y) && (y <? 180)) eqn:Hin; [| done].
    rewrite !andb_true_iff, !Z.leb_le, !Z.ltb_lt in Hin. lia. }
  destruct (icon_spec text font) as (img' & Hicon' & _ & _ & _ & Hpix).
  assert (img' = img) as -> by congruence.
  rewrite (Hpix x y Hx Hy) in Hpx. unfold background in Hpx.
  pose proof (coverage_range font text (x - fst (position (getbbox font text)))
                (y - snd (position (getbbox font text)))) as Hcov.
  assert (0 <= r <= 0 ∧ 0 <= g <= 212 ∧ 0 <= b <= 255); [| lia].
  eapply blend_black_bounds; [exact Hcov | lia | lia | lia | congruence].
Qed.

Lemma icon_pixels_between_witness :
  ∃ img r g b, icon "n" bold_sans_100 = inr img
    ∧ Image.getpixel img (100, 120) = Some (r, g, b)
    ∧ r = 0 ∧ 0 <= g <= 212 ∧ 0 <= b <= 255.
Proof.
  destruct (icon_spec "n" bold_sans_100) as (img & Hicon & _ & _ & _ & Hpix).
  destruct (Image.getpixel img (100, 120)) as [[[r g] b] |] eqn:Hpx.
  - exists img, r, g, b. split; [exact Hicon |]. split; [exact Hpx |].
    exact (icon_pixels_between "n" bold_sans_100 img 100 120 r g b Hicon Hpx).
  - exfalso. rewrite (Hpix 100 120) in Hpx by lia. discriminate Hpx.
Defined.

(** ** What the run reads and what it leaves *)

(** The font resolved by lines 11-16 depends on three things only. *)
Lemma resolved_font_agree size w1 w2 :
  freetype w1 = freetype w2 →
  files w1 !! font_path = files w2 !! font_path →
  builtin_font w1 None = builtin_font w2 None →
  resolved_font size w1 = resolved_font size w2.
Proof.
  intros Hft Hfile Hb. unfold resolved_font, ImageFont.truetype.
  rewrite Hft, Hfile, Hb.
  destruct (negb (freetype w2)), (size <=? 0); try done.
  by destruct (files w2 !! font_path) as [[| |] |].
Qed.



(** Whatever was stored at the output path before (an older icon, a file
    of another kind, nothing), a run that can write leaves the same
    filesystem: the old content has no influence and is not kept. *)
Theorem save_replaces_any_file (w : World) (c : content) :
  faults w !! output_path = None →
  let w' := set_files (<[output_path := c]> (files w)) w in
  fst (main w') = inr ()
  ∧ files (snd (main w')) = files (snd (main w))
  ∧ ∃ img, fst (render w) = inr img
      ∧ files (snd (main w')) !! output_path = Some (PngFile (Image.png_encode img)).
Proof.
  intros Hf w'.
  destruct (render_total w) as (img & Hicon & Hr).
  assert (resolved_font 100 w' = resolved_font 100 w) as Hfont.
  { apply resolved_font_agree; try done. subst w'. cbn [files set_files].
    rewrite lookup_insert_ne; [done |]. intros Heq. by apply paths_differ. }
  assert (icon "n" (resolved_font 100 w') = inr img) as Hicon' by (by rewrite Hfont).
  assert (faults w' !! output_path = None) as Hf' by done.
  rewrite (main_ok w' img Hicon' Hf'), (main_ok w img Hicon Hf).
  cbn [fst snd files set_stdout set_files]. subst w'. cbn [files set_files].
  rewrite insert_insert_eq, lookup_insert_eq.
  split; [done |]. split; [done |]. exists img. by rewrite Hr.
Qed.

Lemma save_replaces_any_file_witness :
  files (snd (main stale_world)) = files (snd (main bare_world)).
Proof.
  pose proof (save_replaces_any_file bare_world (Raw [137; 80; 78; 71]) eq_refl) as H.
  cbv zeta in H. destruct H as (_ & Hfiles & _).
  unfold stale_world.
  replace ({[output_path := Raw [137; 80; 78; 71]]} : gmap string content)
    with (<[output_path := Raw [137; 80; 78; 71]]> (files bare_world)); [exact Hfiles |].
  reflexivity.
Defined.

(** ** Running any number of times *)





(** ** The try branch (line 13) *)

(** When FreeType is installed and the font path holds a font file, the
    font of line 13 is the one used: the file's face at size 100.  The
    built-in font plays no part, so two such worlds render the same image
    whatever their built-in fonts are. *)
Theorem loaded_font_is_used (w w2 : World) (face : Face) :
  freetype w = true → files w !! font_path = Some (FontFile face) →
  freetype w2 = true → files w2 !! font_path = Some (FontFile face) →
  load_font 100 w =
    (inr {| getbbox := face_bbox face 100; getmask := face_mask face 100 |}, w)
  ∧ fst (render w) =
      icon "n" {| getbbox := face_bbox face 100; getmask := face_mask face 100 |}
  ∧ fst (render w) = fst (render w2).
Proof.
  intros Hft Hfile Hft2 Hfile2.
  assert (∀ v, freetype v = true → files v !! font_path = Some (FontFile face) →
               resolved_font 100 v =
                 {| getbbox := face_bbox face 100; getmask := face_mask face 100 |}) as Hres.
  { intros v Hv Hvf. apply resolved_font_loaded. unfold ImageFont.truetype.
    by rewrite Hv, Hvf. }
  split; [by rewrite load_font_total, (Hres w Hft Hfile) |].
  destruct (render_total w) as (i1 & Hi1 & ->).
  destruct (render_total w2) as (i2 & Hi2 & ->).
  rewrite (Hres w Hft Hfile) in Hi1. rewrite (Hres w2 Hft2 Hfile2) in Hi2.
  cbn [fst]. split; congruence.
Qed.

Lemma loaded_font_is_used_witness :
  load_font 100 font_world = (inr bold_sans_100, font_world).
Proof.
  exact (proj1 (loaded_font_is_used font_world font_world bold_sans
                  eq_refl eq_refl eq_refl eq_refl)).
Defined.
